(** * UILabel: a text label on top of a managed surface

    Shallow embedding of [js/lib/famous-web-components/controls/UILabel.js]
    and the properties of its size, text and deploy handling.

    The label is one JavaScript object whose methods mutate it and its
    single child element in place.  Every method is embedded as a
    computation over the label's state that, besides its return value,
    yields the calls it made to its collaborators (the child element,
    the element's surface and the inherited component methods); a
    [TypeError] keeps the state reached when it was raised. *)

From stdpp Require Import base strings list gmap.
From Stdlib Require Import ZArith.

Open Scope Z_scope.

(** ** Values *)

(** Primitive JavaScript values.  Pixel dimensions ([clientWidth],
    [clientHeight]) are integers. *)
Inductive prim :=
| PUndefined
| PNull
| PBool (b : bool)
| PNum (n : Z)
| PStr (s : string).

Global Instance prim_eq_dec : EqDecision prim.
Proof. solve_decision. Defined.

(** Address of an object; [this] in a method is such an address. *)
Definition objref := positive.

(** The values that travel through the label's interface: primitives,
    arrays of primitives (sizes, class lists), plain objects used as maps
    (styles) and references to objects. *)
Inductive jsval :=
| JPrim (p : prim)
| JArr (a : list prim)
| JObj (m : gmap string prim)
| JRef (r : objref).

Global Instance jsval_eq_dec : EqDecision jsval.
Proof. solve_decision. Defined.

Definition undefined : jsval := JPrim PUndefined.

(** [ToBoolean]: what [x ? a : b] and [if (x)] test. *)
Definition truthy (v : jsval) : bool :=
  match v with
  | JPrim PUndefined | JPrim PNull => false
  | JPrim (PBool b) => b
  | JPrim (PNum n) => negb (n =? 0)
  | JPrim (PStr s) => negb (bool_decide (s = EmptyString))
  | JArr _ | JObj _ | JRef _ => true
  end.

(** [a !== b] on primitives. *)
Definition strict_neq (a b : prim) : bool := negb (bool_decide (a = b)).

(** [a[i] = v] on an array: in range it overwrites, past the end it
    grows the array, the skipped slots reading [undefined]. *)
Definition array_set (i : nat) (v : prim) (a : list prim) : list prim :=
  if decide (i < length a)%nat then <[i:=v]> a
  else a ++ replicate (i - length a) PUndefined ++ [v].

(** [a.slice(start)]: a new array with the elements from [start] on. *)
Definition slice (start : nat) (a : list prim) : list prim := drop start a.

(** ** The objects *)

(** The options object handed to the constructor: [text], [classes] and
    [style] may be absent ([undefined]); [size] is absent or an array. *)
Record Options := {
  opt_text : prim;
  opt_classes : jsval;
  opt_style : jsval;
  opt_size : option (list prim)
}.

(** [options.size] as a value: an absent property reads [undefined]. *)
Definition size_property (o : option (list prim)) : jsval :=
  match o with
  | Some a => JArr a
  | None => undefined
  end.

(** The platform node a surface is attached to, with its live pixel
    dimensions. *)
Record Target := {
  clientWidth : Z;
  clientHeight : Z
}.

(** Modelled from the spec: the platform surface of the rendering engine,
    which is not part of this repository.  The label touches three of its
    members: the [size] it was asked for, the [_contentDirty] flag that
    makes the next render pass deploy it again, and [_currentTarget], the
    node it is attached to ([null] until the platform attaches it). *)
Record Surface := {
  surface_size : jsval;
  _contentDirty : bool;
  _currentTarget : option Target
}.

(** Modelled from the spec: the child element wrapper [UIElement]
    ([../core/UIElement], absent from the sources at hand).  It holds a
    content, classes, an inline style and a requested size, owns one
    surface, and keeps the events a listener was bound to with [on]. *)
Record UIElement := {
  element_content : prim;
  element_classes : jsval;
  element_style : jsval;
  element_size : jsval;
  _surface : Surface;
  element_listeners : list string
}.

(** The label.  [options] and [_masterModifier] are the members inherited
    from [UIComponent] that the label's own code reads. *)
Record UILabel := {
  options : Options;
  _masterModifier : bool;
  _size : list prim;
  _measuredSize : bool;
  _text : prim;
  _element : option UIElement
}.

(** Field updates. *)
Definition set_contentDirty (b : bool) (s : Surface) : Surface :=
  {| surface_size := surface_size s; _contentDirty := b;
     _currentTarget := _currentTarget s |}.

Definition set_surface_size (v : jsval) (s : Surface) : Surface :=
  {| surface_size := v; _contentDirty := _contentDirty s;
     _currentTarget := _currentTarget s |}.

Definition set_currentTarget (t : option Target) (s : Surface) : Surface :=
  {| surface_size := surface_size s; _contentDirty := _contentDirty s;
     _currentTarget := t |}.

Definition set_surface (f : Surface -> Surface) (e : UIElement) : UIElement :=
  {| element_content := element_content e; element_classes := element_classes e;
     element_style := element_style e; element_size := element_size e;
     _surface := f (_surface e); element_listeners := element_listeners e |}.

Definition set_element_content (c : prim) (e : UIElement) : UIElement :=
  {| element_content := c; element_classes := element_classes e;
     element_style := element_style e; element_size := element_size e;
     _surface := _surface e; element_listeners := element_listeners e |}.

Definition set_element_classes (c : jsval) (e : UIElement) : UIElement :=
  {| element_content := element_content e; element_classes := c;
     element_style := element_style e; element_size := element_size e;
     _surface := _surface e; element_listeners := element_listeners e |}.

Definition set_element_style (st : jsval) (e : UIElement) : UIElement :=
  {| element_content := element_content e; element_classes := element_classes e;
     element_style := st; element_size := element_size e;
     _surface := _surface e; element_listeners := element_listeners e |}.

Definition set_element_size (v : jsval) (e : UIElement) : UIElement :=
  {| element_content := element_content e; element_classes := element_classes e;
     element_style := element_style e; element_size := v;
     _surface := _surface e; element_listeners := element_listeners e |}.

Definition add_element_listener (ev : string) (e : UIElement) : UIElement :=
  {| element_content := element_content e; element_classes := element_classes e;
     element_style := element_style e; element_size := element_size e;
     _surface := _surface e; element_listeners := element_listeners e ++ [ev] |}.

Definition set_options (o : Options) (l : UILabel) : UILabel :=
  {| options := o; _masterModifier := _masterModifier l; _size := _size l;
     _measuredSize := _measuredSize l; _text := _text l; _element := _element l |}.

Definition set_masterModifier (b : bool) (l : UILabel) : UILabel :=
  {| options := options l; _masterModifier := b; _size := _size l;
     _measuredSize := _measuredSize l; _text := _text l; _element := _element l |}.

Definition set_size (a : list prim) (l : UILabel) : UILabel :=
  {| options := options l; _masterModifier := _masterModifier l; _size := a;
     _measuredSize := _measuredSize l; _text := _text l; _element := _element l |}.

Definition set_measuredSize (b : bool) (l : UILabel) : UILabel :=
  {| options := options l; _masterModifier := _masterModifier l; _size := _size l;
     _measuredSize := b; _text := _text l; _element := _element l |}.

Definition set_text (t : prim) (l : UILabel) : UILabel :=
  {| options := options l; _masterModifier := _masterModifier l; _size := _size l;
     _measuredSize := _measuredSize l; _text := t; _element := _element l |}.

Definition set_element (e : option UIElement) (l : UILabel) : UILabel :=
  {| options := options l; _masterModifier := _masterModifier l; _size := _size l;
     _measuredSize := _measuredSize l; _text := _text l; _element := e |}.

(** ** Calls to collaborators *)

(** What a method does to the objects around the label, in the order it
    does it.  Counting entries of a trace is how "exactly once" and "not
    at all" are stated. *)
Inductive call :=
| Super_constructor (o : Options)
| Component_addChild
| Component_addMasterModifier
| SizeState_set (a : list prim)
| Emit (name : string) (payload : jsval)
| Element_new (content : prim) (classes style : jsval)
| Element_setSize (v : jsval)
| Element_setClasses (args : list jsval)
| Element_setStyle (args : list jsval)
| Element_getStyle
| Element_setContent (c : prim)
| Element_getContent
| Element_on (ev : string)
| Surface_setSize (v : jsval)
| Surface_contentDirty (b : bool).

Global Instance Options_eq_dec : EqDecision Options.
Proof. solve_decision. Defined.

Global Instance call_eq_dec : EqDecision call.
Proof. solve_decision. Defined.

Definition trace := list call.

(** ** Computations on a label *)

Inductive error := TypeError.

(** A method either returns a value or throws; in both cases the label is
    left in some state and some calls have been made. *)
Inductive result (A : Type) :=
| Ok (a : A) (l : UILabel) (tr : trace)
| Throw (e : error) (l : UILabel) (tr : trace).

Arguments Ok {A} a l tr.
Arguments Throw {A} e l tr.

Definition M (A : Type) : Type := UILabel -> result A.

Definition ret {A} (a : A) : M A := fun l => Ok a l [].

Definition bind {A B} (m : M A) (k : A -> M B) : M B :=
  fun l =>
    match m l with
    | Ok a l1 t1 =>
        match k a l1 with
        | Ok b l2 t2 => Ok b l2 (t1 ++ t2)
        | Throw e l2 t2 => Throw e l2 (t1 ++ t2)
        end
    | Throw e l1 t1 => Throw e l1 t1
    end.

Declare Scope label_scope.
Delimit Scope label_scope with label.
Notation "x <- m ;; k" := (bind m (fun x => k))
  (at level 100, m at next level, right associativity) : label_scope.
Notation "m ;; k" := (bind m (fun _ => k))
  (at level 100, right associativity) : label_scope.
Open Scope label_scope.

Definition throw {A} (e : error) : M A := fun l => Throw e l [].
Definition get : M UILabel := fun l => Ok l l [].
Definition modify (f : UILabel -> UILabel) : M unit := fun l => Ok tt (f l) [].
Definition record (c : call) : M unit := fun l => Ok tt l [c].

(** The state a computation leaves behind, and what it did. *)
Definition state_of {A} (r : result A) : UILabel :=
  match r with
  | Ok _ l _ | Throw _ l _ => l
  end.

Definition trace_of {A} (r : result A) : trace :=
  match r with
  | Ok _ _ tr | Throw _ _ tr => tr
  end.

(** [this._element]: using it while it is still [undefined] is a
    [TypeError]. *)
Definition this_element : M UIElement :=
  l <- get ;;
  match _element l with
  | Some e => ret e
  | None => throw TypeError
  end.

Definition update_element (f : UIElement -> UIElement) : M unit :=
  e <- this_element ;;
  modify (set_element (Some (f e))).

(** ** The collaborators *)

(** Modelled from the spec: a surface as the engine creates it, not yet
    attached, with no size asked for and its content still to deploy. *)
Definition new_Surface : Surface :=
  {| surface_size := JPrim PNull; _contentDirty := true; _currentTarget := None |}.

(** Modelled from the spec: [new UIElement({content, classes, style})]
    creates the child surface element with that content, classes and
    style. *)
Definition new_UIElement (content : prim) (classes style : jsval) : M UIElement :=
  record (Element_new content classes style) ;;
  ret {| element_content := content; element_classes := classes;
         element_style := style; element_size := undefined;
         _surface := new_Surface; element_listeners := [] |}.

(** Modelled from the spec: [UIElement.setSize(size)] records the size
    asked of the element. *)
Definition element_setSize (v : jsval) : M jsval :=
  update_element (set_element_size v) ;;
  record (Element_setSize v) ;;
  ret undefined.

(** Modelled from the spec: [UIElement.setClasses] receives the caller's
    arguments and holds the class list given first. *)
Definition element_setClasses (args : list jsval) : M jsval :=
  update_element (set_element_classes (nth 0 args undefined)) ;;
  record (Element_setClasses args) ;;
  ret undefined.

(** Modelled from the spec: [UIElement.setStyle] receives the caller's
    arguments and holds the style map given first. *)
Definition element_setStyle (args : list jsval) : M jsval :=
  update_element (set_element_style (nth 0 args undefined)) ;;
  record (Element_setStyle args) ;;
  ret undefined.

(** Modelled from the spec: [UIElement.getStyle()] reads the style and
    changes nothing. *)
Definition element_getStyle : M jsval :=
  e <- this_element ;;
  record Element_getStyle ;;
  ret (element_style e).

(** Modelled from the spec: [UIElement.setContent(c)] writes the
    element's content. *)
Definition element_setContent (c : prim) : M jsval :=
  update_element (set_element_content c) ;;
  record (Element_setContent c) ;;
  ret undefined.

(** Modelled from the spec: [UIElement.getContent()] reads the element's
    content and changes nothing. *)
Definition element_getContent : M prim :=
  e <- this_element ;;
  record Element_getContent ;;
  ret (element_content e).

(** Modelled from the spec: [UIElement.on(event, handler)] binds a
    listener; the only handler the label ever binds is its deploy
    callback. *)
Definition element_on (ev : string) : M unit :=
  update_element (add_element_listener ev) ;;
  record (Element_on ev).

(** Modelled from the spec: [Surface.setSize(size)] on the element's
    surface. *)
Definition surface_setSize (v : jsval) : M unit :=
  update_element (set_surface (set_surface_size v)) ;;
  record (Surface_setSize v).

(** [this._element._surface._currentTarget]; reading a property of it
    while it is [null] is a [TypeError]. *)
Definition surface_currentTarget : M Target :=
  e <- this_element ;;
  match _currentTarget (_surface e) with
  | Some t => ret t
  | None => throw TypeError
  end.

(** Modelled from the spec: the constructor of [UIComponent]
    ([../core/UIComponent], absent from the sources at hand), called
    through [_callSuper]; it keeps the options object as [this.options]. *)
Definition _callSuper_constructor (o : Options) : M unit :=
  modify (set_options o) ;;
  record (Super_constructor o).

(** Modelled from the spec: [UIComponent._addChild], by which the label
    takes ownership of its child element; seen as a call only. *)
Definition _addChild : M unit := record Component_addChild.

(** Modelled from the spec: [UIComponent._addMasterModifier], after which
    [_masterModifier] is present. *)
Definition _addMasterModifier : M unit :=
  modify (set_masterModifier true) ;;
  record Component_addMasterModifier.

(** Modelled from the spec: [UIComponent._sizeState.set], handed the
    label's size array; seen as a call only, with the array's elements at
    the time of the call. *)
Definition _sizeState_set (a : list prim) : M unit := record (SizeState_set a).

(** Modelled from the spec: [emit(name, payload)] notifies the outside
    listeners of the label; seen as a call only. *)
Definition emit (name : string) (payload : jsval) : M unit :=
  record (Emit name payload).

(** ** The label's methods

    Each definition follows the method of the same name. *)

(** [_readSize] *)
Definition _readSize : M unit :=
  t <- surface_currentTarget ;;
  l <- get ;;
  modify (set_size (array_set 0 (PNum (clientWidth t)) (_size l))) ;;
  t <- surface_currentTarget ;;
  l <- get ;;
  modify (set_size (array_set 1 (PNum (clientHeight t)) (_size l))).

(** [_invalidateSurface] *)
Definition _invalidateSurface : M unit :=
  update_element (set_surface (set_contentDirty true)) ;;
  record (Surface_contentDirty true).

(** The function bound to the element's ['deploy'] event in
    [_bindEvents]; [self] is the label. *)
Definition deploy_callback (self : objref) : M unit :=
  _readSize ;;
  l <- get ;;
  _sizeState_set (_size l) ;;
  c <- element_getContent ;;
  l <- get ;;
  (if strict_neq c (_text l)
   then (l' <- get ;; element_setContent (_text l') ;; ret tt)
   else ret tt) ;;
  emit "sizeChange" (JRef self).

(** [_bindEvents] *)
Definition _bindEvents : M unit :=
  l <- get ;;
  (if negb (_masterModifier l) then _addMasterModifier else ret tt) ;;
  element_on "deploy".

(** [constructor], run on the object [new] has just created. *)
Definition constructor (opts : Options) : M unit :=
  _callSuper_constructor opts ;;
  modify (set_size []) ;;
  l <- get ;;
  modify (set_measuredSize
            (if truthy (size_property (opt_size (options l))) then false else true)) ;;
  modify (set_text (opt_text opts)) ;;
  l <- get ;;
  e <- new_UIElement (_text l) (opt_classes (options l)) (opt_style (options l)) ;;
  modify (set_element (Some e)) ;;
  element_setSize (JArr [PBool true; PBool true]) ;;
  l <- get ;;
  (if truthy (size_property (opt_size (options l)))
   then (element_setSize (size_property (opt_size (options l))) ;; ret tt)
   else ret tt) ;;
  _addChild ;;
  _bindEvents.

(** A stand-in for the object [new] creates.  In JavaScript none of its
    members is set; a record cannot say so, and the values written here
    are placeholders.  [_element := None] and [_measuredSize := false]
    read as the unset members do where the code tests them
    ([!this._element], [if (this._measuredSize)]); [_size], [_text] and
    [options] are never read by the constructor before it has assigned
    them, so that what it builds does not depend on the placeholders. *)
Definition fresh_object : UILabel :=
  {| options := {| opt_text := PUndefined; opt_classes := undefined;
                   opt_style := undefined; opt_size := None |};
     _masterModifier := false; _size := []; _measuredSize := false;
     _text := PUndefined; _element := None |}.

(** [new UILabel(options)] *)
Definition new_UILabel (opts : Options) : result unit :=
  constructor opts fresh_object.

(** [getSize] *)
Definition getSize : M (list prim) :=
  l <- get ;;
  ret (slice 0 (_size l)).

(** [setSize]; [this] is the label, which the method returns. *)
Definition setSize (this : objref) (size : jsval) : M jsval :=
  l <- get ;;
  match _element l with
  | None => ret undefined
  | Some _ =>
      _invalidateSurface ;;
      surface_setSize (JArr [PUndefined; PUndefined]) ;;
      element_setSize size ;;
      modify (set_measuredSize false) ;;
      ret (JRef this)
  end.

(** [setAutoSize] *)
Definition setAutoSize : M jsval :=
  l <- get ;;
  if _measuredSize l then ret undefined
  else
    _invalidateSurface ;;
    surface_setSize (JArr [PBool true; PBool true]) ;;
    modify (set_measuredSize true) ;;
    ret undefined.

(** [setClasses] *)
Definition setClasses (arguments : list jsval) : M jsval :=
  _invalidateSurface ;;
  element_setClasses arguments.

(** [setStyle] *)
Definition setStyle (arguments : list jsval) : M jsval :=
  _invalidateSurface ;;
  element_setStyle arguments.

(** [getStyle] *)
Definition getStyle : M jsval := element_getStyle.

(** [setText] *)
Definition setText (text : prim) : M jsval :=
  modify (set_text text) ;;
  _invalidateSurface ;;
  element_setContent text ;;
  ret undefined.

(** [getText] *)
Definition getText : M prim :=
  l <- get ;;
  ret (_text l).

(** ** The platform *)

(** Modelled from the spec: the platform attaches the surface to a node
    (or detaches it), from which its measurements are read. *)
Definition platform_attach (t : option Target) : M unit :=
  update_element (set_surface (set_currentTarget t)).

(** Modelled from the spec: once the platform has deployed the surface's
    content it resets the stale flag. *)
Definition platform_clean : M unit :=
  update_element (set_surface (set_contentDirty false)).

(** Modelled from the spec: the deploy event runs every listener bound to
    ['deploy'] on the element, in the order they were bound. *)
Fixpoint run_listeners (self : objref) (evs : list string) : M unit :=
  match evs with
  | [] => ret tt
  | ev :: evs' =>
      (if bool_decide (ev = "deploy"%string) then deploy_callback self else ret tt) ;;
      run_listeners self evs'
  end.

Definition platform_deploy (self : objref) : M unit :=
  e <- this_element ;;
  run_listeners self (element_listeners e).

(** ** Lives of a label *)

(** What can happen to a label once it is constructed: a call of one of
    its public methods, or one of the platform's moves. *)
Inductive op :=
| OGetSize
| OSetSize (size : jsval)
| OSetAutoSize
| OSetClasses (arguments : list jsval)
| OSetStyle (arguments : list jsval)
| OGetStyle
| OSetText (text : prim)
| OGetText
| OAttach (t : option Target)
| OClean
| ODeploy.

Definition run_op (this : objref) (o : op) : M jsval :=
  match o with
  | OGetSize => a <- getSize ;; ret (JArr a)
  | OSetSize size => setSize this size
  | OSetAutoSize => setAutoSize
  | OSetClasses args => setClasses args
  | OSetStyle args => setStyle args
  | OGetStyle => getStyle
  | OSetText text => setText text
  | OGetText => t <- getText ;; ret (JPrim t)
  | OAttach t => platform_attach t ;; ret undefined
  | ODeploy => platform_deploy this ;; ret undefined
  | OClean => platform_clean ;; ret undefined
  end.

(** The label after a sequence of operations; an operation that throws
    leaves the label as it was when it threw. *)
Definition run_ops (this : objref) (os : list op) (l : UILabel) : UILabel :=
  foldl (fun l o => state_of (run_op this o l)) l os.

(** The states the label at address [this], constructed with [new], can
    be in. *)
Inductive reachable (this : objref) : UILabel -> Prop :=
| reachable_new (opts : Options) :
    reachable this (state_of (new_UILabel opts))
| reachable_step (o : op) (l : UILabel) :
    reachable this l -> reachable this (state_of (run_op this o l)).

(** ** Reading traces *)


Definition is_setContent (c : call) : bool :=
  match c with
  | Element_setContent _ => true
  | _ => false
  end.

Definition is_on (c : call) : bool :=
  match c with
  | Element_on _ => true
  | _ => false
  end.

Definition is_element_setSize (c : call) : bool :=
  match c with
  | Element_setSize _ => true
  | _ => false
  end.

(** The calls that write to the surface: its stale flag or its size. *)
Definition touches_surface (c : call) : bool :=
  match c with
  | Surface_contentDirty _ | Surface_setSize _ => true
  | _ => false
  end.

(** The surface of a label's child element, when it has one. *)
Definition surface_of (l : UILabel) : option Surface :=
  _surface <$> _element l.

(** ** Examples *)

Definition sample_options : Options :=
  {| opt_text := PStr "Layouts";
     opt_classes := JArr [PStr "ui-label"];
     opt_style := JObj {[ "color"%string := PStr "red" ]};
     opt_size := None |}.

Definition sized_options : Options :=
  {| opt_text := PStr "Layouts";
     opt_classes := JArr [PStr "ui-label"];
     opt_style := JObj {[ "color"%string := PStr "red" ]};
     opt_size := Some [PNum 100; PNum 50] |}.

Definition sample_label : UILabel := state_of (new_UILabel sample_options).
Definition sized_label : UILabel := state_of (new_UILabel sized_options).

Definition node_120_40 : Target := {| clientWidth := 120; clientHeight := 40 |}.

(** The sample label once the platform has attached its surface. *)
Definition attached_label : UILabel :=
  run_ops 1%positive [OAttach (Some node_120_40)] sample_label.

(** An element whose content is no longer the label's text, and the
    sample label holding it. *)
Definition stale_element : UIElement :=
  {| element_content := PStr "stale";
     element_classes := JArr [PStr "ui-label"];
     element_style := JObj {[ "color"%string := PStr "red" ]};
     element_size := JArr [PBool true; PBool true];
     _surface := {| surface_size := JPrim PNull; _contentDirty := true;
                    _currentTarget := Some node_120_40 |};
     element_listeners := ["deploy"%string] |}.

Definition diverged_label : UILabel :=
  set_element (Some stale_element) attached_label.

(** ** What the history says about the sizing mode *)

Definition is_setSize (o : op) : bool :=
  match o with
  | OSetSize _ => true
  | _ => false
  end.

(** The flag as the data model describes it, read off the history alone:
    some [setAutoSize] call has no [setSize] call after it, or the label
    was constructed without an explicit size and [setSize] was never
    called. *)
Definition auto_sized_by_history (opts : Options) (os : list op) : Prop :=
  (exists before after,
      os = before ++ OSetAutoSize :: after /\
      Forall (fun o => is_setSize o = false) after) \/
  (opt_size opts = None /\ Forall (fun o => is_setSize o = false) os).

(** The effect of one operation on the flag. *)
Definition flag_step (b : bool) (o : op) : bool :=
  match o with
  | OSetSize _ => false
  | OSetAutoSize => true
  | _ => b
  end.

(** ** The shape of a constructed label *)

(** What holds of a label from its construction on: it has its child
    element, with the one deploy listener bound, and its stored size is
    empty or a pair of numbers. *)
Definition well_formed (l : UILabel) : Prop :=
  (exists e, _element l = Some e /\ element_listeners e = ["deploy"%string]) /\
  (_size l = [] \/ exists w h, _size l = [PNum w; PNum h]).

(** ** What an operation leaves alone *)

(** A computation respects a relation between the state it starts from
    and the state it leaves, whether it returns or throws. *)
Definition respects {A} (R : UILabel -> UILabel -> Prop) (m : M A) : Prop :=
  forall l, R l (state_of (m l)).

Definition same_text (l l' : UILabel) : Prop := _text l' = _text l.

Definition same_mode (l l' : UILabel) : Prop := _measuredSize l' = _measuredSize l.

(** The surface's stale flag, when the label has a child element. *)
Definition stale (l : UILabel) : option bool := _contentDirty <$> surface_of l.

Definition stays_stale (l l' : UILabel) : Prop :=
  stale l = Some true -> stale l' = Some true.

(** The node the label's surface is attached to, if any. *)
Definition attached_node (l : UILabel) : option Target :=
  match _element l with
  | Some e => _currentTarget (_surface e)
  | None => None
  end.

(** The text a label holds after an operation. *)
Definition text_step (t : prim) (o : op) : prim :=
  match o with
  | OSetText text => text
  | _ => t
  end.

Ltac unfold_label :=
  unfold new_UILabel, constructor, _bindEvents, deploy_callback, _readSize,
    _invalidateSurface, getSize, setSize, setAutoSize, setClasses, setStyle,
    getStyle, setText, getText, platform_attach, platform_clean,
    platform_deploy, element_setSize, element_setClasses, element_setStyle,
    element_getStyle, element_setContent, element_getContent, element_on,
    surface_setSize, surface_currentTarget, _callSuper_constructor, _addChild,
    _addMasterModifier, _sizeState_set, emit, new_UIElement, update_element,
    this_element, record, modify, get, throw, bind, ret in *.

Ltac run := unfold_label; cbn in *.

Lemma new_UILabel_shape (opts : Options) :
  exists e tr,
    new_UILabel opts =
      Ok tt {| options := opts; _masterModifier := true; _size := [];
               _measuredSize := negb (truthy (size_property (opt_size opts)));
               _text := opt_text opts; _element := Some e |} tr /\
    element_listeners e = ["deploy"%string] /\
    element_content e = opt_text opts /\
    element_size e = match opt_size opts with
                     | Some a => JArr a
                     | None => JArr [PBool true; PBool true]
                     end.
Proof.
  destruct opts as [t c s [a|]]; run; eauto 10.
Qed.

Lemma well_formed_new (opts : Options) : well_formed (state_of (new_UILabel opts)).
Proof.
  destruct (new_UILabel_shape opts) as (e & tr & -> & He & _).
  split; cbn; eauto.
Qed.

(** The deploy callback on a label that has its element attached. *)
Lemma deploy_callback_attached (self : objref) (l : UILabel) (e : UIElement) (t : Target) :
  _element l = Some e ->
  _currentTarget (_surface e) = Some t ->
  let size' := array_set 1 (PNum (clientHeight t))
                 (array_set 0 (PNum (clientWidth t)) (_size l)) in
  deploy_callback self l =
    if strict_neq (element_content e) (_text l)
    then Ok tt (set_element (Some (set_element_content (_text l) e)) (set_size size' l))
           [SizeState_set size'; Element_getContent; Element_setContent (_text l);
            Emit "sizeChange" (JRef self)]
    else Ok tt (set_size size' l)
           [SizeState_set size'; Element_getContent; Emit "sizeChange" (JRef self)].
Proof.
  intros He Ht. destruct l as [o m sz ms tx el]; cbn in He; subst el.
  destruct e as [c cl st es [ss cd ct] ls]; cbn in Ht; subst ct.
  run. destruct (strict_neq c tx); reflexivity.
Qed.

(** Without a node to measure, the callback throws before it has changed
    anything. *)
Lemma deploy_callback_detached (self : objref) (l : UILabel) (e : UIElement) :
  _element l = Some e ->
  _currentTarget (_surface e) = None ->
  deploy_callback self l = Throw TypeError l [].
Proof.
  intros He Ht. destruct l as [o m sz ms tx el]; cbn in He; subst el.
  destruct e as [c cl st es [ss cd ct] ls]; cbn in Ht; subst ct.
  reflexivity.
Qed.

Lemma array_set_pair (w h : prim) (a : list prim) :
  (length a <= 2)%nat ->
  array_set 1 h (array_set 0 w a) = [w; h].
Proof.
  destruct a as [|x [|y [|z a]]]; cbn; intros; try reflexivity; lia.
Qed.

(** On a constructed label the deploy event runs the callback once. *)
Lemma platform_deploy_once (self : objref) (l : UILabel) :
  well_formed l ->
  platform_deploy self l = deploy_callback self l.
Proof.
  intros [(e & He & Hl) _].
  unfold platform_deploy, this_element, get, bind at 1 2.
  cbn. rewrite He. cbn. rewrite Hl. cbn.
  rewrite bool_decide_eq_true_2 by reflexivity.
  unfold bind, ret.
  destruct (deploy_callback self l) as [[] l' tr|err l' tr]; rewrite ?app_nil_r; reflexivity.
Qed.

Lemma well_formed_step (this : objref) (o : op) (l : UILabel) :
  well_formed l -> well_formed (state_of (run_op this o l)).
Proof.
  intros Hwf.
  destruct o; try (
    destruct Hwf as [(e & He & Hl) Hsz];
    destruct l as [opts m sz ms tx el]; cbn in He, Hsz; subst el;
    destruct e as [c cl st es [ss cd ct] ls]; cbn in Hl; subst ls;
    try destruct ms; run; split; eauto; fail).
  (* the deploy event *)
  unfold run_op. unfold bind at 1. rewrite platform_deploy_once by exact Hwf.
  destruct Hwf as [(e & He & Hl) Hsz].
  destruct (_currentTarget (_surface e)) as [t|] eqn:Ht.
  - rewrite (deploy_callback_attached this l e t He Ht). cbn zeta.
    rewrite array_set_pair by (destruct Hsz as [->|(w & h & ->)]; cbn; lia).
    destruct (strict_neq (element_content e) (_text l)); cbn.
    + split; [|right; eauto]. eexists; split; [reflexivity|exact Hl].
    + split; [|right; eauto]. eauto.
  - rewrite (deploy_callback_detached this l e He Ht). cbn. split; eauto.
Qed.

Lemma well_formed_run (this : objref) (os : list op) (l : UILabel) :
  well_formed l -> well_formed (run_ops this os l).
Proof.
  revert l. induction os as [|o os IH]; intros l Hwf; cbn.
  - exact Hwf.
  - apply IH, well_formed_step, Hwf.
Qed.

Lemma reachable_well_formed (this : objref) (l : UILabel) :
  reachable this l -> well_formed l.
Proof.
  induction 1 as [opts|o l _ IH].
  - apply well_formed_new.
  - apply well_formed_step, IH.
Qed.

Lemma reachable_run (this : objref) (os : list op) (l : UILabel) :
  reachable this l -> reachable this (run_ops this os l).
Proof.
  revert l. induction os as [|o os IH]; intros l Hl; cbn.
  - exact Hl.
  - apply IH, reachable_step, Hl.
Qed.

(** A state is reachable exactly when some options and some history lead
    to it. *)
Lemma reachable_history (this : objref) (l : UILabel) :
  reachable this l <->
  exists opts os, l = run_ops this os (state_of (new_UILabel opts)).
Proof.
  split.
  - induction 1 as [opts|o l _ (opts & os & ->)].
    + exists opts, []. reflexivity.
    + exists opts, (os ++ [o]). unfold run_ops. rewrite foldl_app. reflexivity.
  - intros (opts & os & ->). apply reachable_run, reachable_new.
Qed.

(** ** The sizing flag along a history *)

Lemma measuredSize_step (this : objref) (o : op) (l : UILabel) :
  well_formed l ->
  _measuredSize (state_of (run_op this o l)) = flag_step (_measuredSize l) o.
Proof.
  intros Hwf.
  destruct o; try (
    destruct Hwf as [(e & He & Hl) Hsz];
    destruct l as [opts m sz ms tx el]; cbn in He, Hsz; subst el;
    destruct e as [c cl st es [ss cd ct] ls]; cbn in Hl; subst ls;
    try destruct ms; reflexivity).
  unfold run_op. unfold bind at 1. rewrite platform_deploy_once by exact Hwf.
  destruct Hwf as [(e & He & Hl) Hsz].
  destruct (_currentTarget (_surface e)) as [t|] eqn:Ht.
  - rewrite (deploy_callback_attached this l e t He Ht). cbn zeta.
    destruct (strict_neq (element_content e) (_text l)); reflexivity.
  - rewrite (deploy_callback_detached this l e He Ht). reflexivity.
Qed.

Lemma measuredSize_run (this : objref) (os : list op) (l : UILabel) :
  well_formed l ->
  _measuredSize (run_ops this os l) = foldl flag_step (_measuredSize l) os.
Proof.
  revert l. induction os as [|o os IH]; intros l Hwf; cbn.
  - reflexivity.
  - unfold run_ops in IH. rewrite IH by (apply well_formed_step, Hwf).
    rewrite measuredSize_step by exact Hwf. reflexivity.
Qed.

(** The flag computed step by step is the flag read off the history. *)
Lemma flag_history (b : bool) (os : list op) :
  foldl flag_step b os = true <->
  (exists before after,
      os = before ++ OSetAutoSize :: after /\
      Forall (fun o => is_setSize o = false) after) \/
  (b = true /\ Forall (fun o => is_setSize o = false) os).
Proof.
  revert b. induction os as [|o os IH]; intros b; cbn.
  - split.
    + intros ->. right. split; [reflexivity|constructor].
    + intros [(before & after & Heq & _)|[-> _]]; [|reflexivity].
      destruct before; discriminate Heq.
  - rewrite IH. split.
    + intros [(before & after & -> & Hafter)|[Hb Hos]].
      * left. exists (o :: before), after. split; [reflexivity|exact Hafter].
      * destruct o; cbn in Hb; try discriminate Hb;
          try (right; split; [exact Hb|constructor; [reflexivity|exact Hos]]).
        left. exists [], os. split; [reflexivity|exact Hos].
    + intros [(before & after & Heq & Hafter)|[-> Hos]].
      * destruct before as [|o' before]; cbn in Heq; inversion Heq; subst.
        -- right. split; [reflexivity|exact Hafter].
        -- left. exists before, after. split; [reflexivity|exact Hafter].
      * inversion Hos as [|? ? Ho Hos']; subst. right.
        split; [|exact Hos']. destruct o; try reflexivity. discriminate Ho.
Qed.

(** ** The label at work *)

(** What the constructor asks of its collaborators, with and without an
    explicit size. *)
Example construction_trace_sized :
  trace_of (new_UILabel sized_options) =
    [Super_constructor sized_options;
     Element_new (PStr "Layouts") (JArr [PStr "ui-label"])
       (JObj {[ "color"%string := PStr "red" ]});
     Element_setSize (JArr [PBool true; PBool true]);
     Element_setSize (JArr [PNum 100; PNum 50]);
     Component_addChild; Component_addMasterModifier; Element_on "deploy"].
Proof. reflexivity. Qed.

Example construction_trace_auto :
  List.filter is_element_setSize (trace_of (new_UILabel sample_options)) =
    [Element_setSize (JArr [PBool true; PBool true])].
Proof. reflexivity. Qed.

(** A deploy before the surface is attached throws and changes nothing;
    after attachment it measures. *)
Example deploy_before_attach :
  platform_deploy 1%positive sample_label = Throw TypeError sample_label [].
Proof. reflexivity. Qed.

Example deploy_after_attach :
  trace_of (platform_deploy 1%positive attached_label) =
    [SizeState_set [PNum 120; PNum 40]; Element_getContent;
     Emit "sizeChange" (JRef 1%positive)].
Proof. reflexivity. Qed.

(** An explicit size, then a deploy on a smaller node, then back to
    auto-sizing. *)
Example resize_scenario :
  let l := run_ops 1%positive
             [OAttach (Some node_120_40); ODeploy;
              OSetSize (JArr [PNum 100; PNum 50]); OGetSize;
              OAttach (Some {| clientWidth := 100; clientHeight := 50 |}); ODeploy;
              OSetAutoSize; OSetAutoSize]
             sample_label in
  _size l = [PNum 100; PNum 50] /\
  _measuredSize l = true /\
  (element_size <$> _element l) = Some (JArr [PNum 100; PNum 50]) /\
  (surface_size <$> surface_of l) = Some (JArr [PBool true; PBool true]).
Proof. repeat split. Qed.

(** Writing past the end of an array grows it. *)
Example array_set_grows : array_set 1 (PNum 7) [] = [PUndefined; PNum 7].
Proof. reflexivity. Qed.

(** ** Further facts about the stored size and the guard of [setSize] *)

(** X1.  The stored size of a constructed label is empty, before the
    first deploy, or the pair of numbers last measured. *)
Lemma stored_size_shape (this : objref) (l : UILabel) :
  reachable this l ->
  getSize l = Ok [] l [] \/ exists w h, getSize l = Ok [PNum w; PNum h] l [].
Proof.
  intros Hr. destruct (reachable_well_formed this l Hr) as [_ [Hsz|(w & h & Hsz)]].
  - left. unfold getSize, get, bind, ret. cbn. rewrite Hsz. reflexivity.
  - right. exists w, h. unfold getSize, get, bind, ret. cbn. rewrite Hsz. reflexivity.
Qed.

Lemma stored_size_shape_witness :
  getSize attached_label = Ok [] attached_label [] \/
  exists w h, getSize attached_label = Ok [PNum w; PNum h] attached_label [].
Proof.
  apply (stored_size_shape 1%positive attached_label).
  apply reachable_run, reachable_new.
Defined.

(** X2.  Called on an object that has no child element yet, [setSize]
    returns [undefined] at once: nothing is recorded and the flag is not
    touched. *)
Lemma setSize_without_element (this : objref) (size : jsval) (l : UILabel) :
  _element l = None ->
  setSize this size l = Ok undefined l [].
Proof.
  intros He. unfold setSize, get, bind, ret. cbn. rewrite He. reflexivity.
Qed.

Lemma setSize_without_element_witness :
  setSize 1%positive (JArr [PNum 100; PNum 50]) fresh_object = Ok undefined fresh_object [].
Proof.
  apply (setSize_without_element 1%positive (JArr [PNum 100; PNum 50]) fresh_object).
  reflexivity.
Defined.

(** ** Properties of the label *)



(** C2.  A label constructed with any options and taken through any
    sequence of method calls and platform events has [_measuredSize] true
    exactly when its history says so: some [setAutoSize] call has no
    [setSize] call after it, or the label was constructed without an
    explicit size and [setSize] was never called.  Construction is the
    empty history; [setSize] and [setAutoSize] are steps of it. *)
Theorem measuredSize_reflects_history (this : objref) (opts : Options) (os : list op) :
  reachable this (run_ops this os (state_of (new_UILabel opts))) /\
  (_measuredSize (run_ops this os (state_of (new_UILabel opts))) = true <->
   auto_sized_by_history opts os).
Proof.
  split; [apply reachable_run, reachable_new|].
  rewrite measuredSize_run by apply well_formed_new.
  rewrite flag_history. unfold auto_sized_by_history.
  destruct (new_UILabel_shape opts) as (e & tr & -> & _). cbn.
  destruct (opt_size opts) as [a|]; cbn; split;
    intros [H|[H1 H2]]; auto; discriminate.
Qed.

(** C3.  On a label that has its child element, [setSize(size)] returns
    the label and leaves the stored size as it was, so that [getSize()]
    after the call returns what it returned before; the size asked for is
    the one the child element now holds, handed to it by one
    [setSize] call. *)
Theorem setSize_keeps_stored_size (this : objref) (size : jsval) (l : UILabel) (e : UIElement) :
  _element l = Some e ->
  exists l' tr e',
    setSize this size l = Ok (JRef this) l' tr /\
    _size l' = _size l /\
    getSize l = Ok (_size l) l [] /\
    getSize l' = Ok (_size l) l' [] /\
    _element l' = Some e' /\
    element_size e' = size /\
    List.filter is_element_setSize tr = [Element_setSize size].
Proof.
  intros He. destruct l as [opts m sz ms tx el]; cbn in He; subst el.
  destruct e as [c cl st es [ss cd ct] ls].
  run. do 3 eexists. repeat (split; [reflexivity|]). reflexivity.
Qed.

Lemma setSize_keeps_stored_size_witness :
  exists l' tr e',
    setSize 1%positive (JArr [PNum 100; PNum 50]) attached_label = Ok (JRef 1%positive) l' tr /\
    _size l' = _size attached_label /\
    getSize attached_label = Ok (_size attached_label) attached_label [] /\
    getSize l' = Ok (_size attached_label) l' [] /\
    _element l' = Some e' /\
    element_size e' = JArr [PNum 100; PNum 50] /\
    List.filter is_element_setSize tr = [Element_setSize (JArr [PNum 100; PNum 50])].
Proof.
  eapply (setSize_keeps_stored_size 1%positive (JArr [PNum 100; PNum 50]) attached_label).
  reflexivity.
Defined.

(** C4.  On every label state, a second [setAutoSize()] right after a
    first one leaves the state exactly as the first call left it and makes
    no call at all, so neither the surface's stale flag nor its size is
    written again.  Both calls return normally and the label ends
    auto-sized, except on an object that has no child element and is not
    auto-sized, where the first call already throws. *)
Theorem setAutoSize_idempotent (l : UILabel) :
  let l1 := state_of (setAutoSize l) in
  state_of (setAutoSize l1) = l1 /\
  trace_of (setAutoSize l1) = [] /\
  (_element l = None /\ _measuredSize l = false /\
     setAutoSize l = Throw TypeError l []
   \/ _measuredSize l1 = true /\
      setAutoSize l1 = Ok undefined l1 [] /\
      exists tr1, setAutoSize l = Ok undefined l1 tr1).
Proof.
  destruct l as [opts m sz [|] tx [[c cl st es [ss cd ct] ls]|]]; cbn zeta.
  - repeat split. right. repeat split. exists []. reflexivity.
  - repeat split. right. repeat split. exists []. reflexivity.
  - repeat split. right. repeat split. eexists. reflexivity.
  - repeat split. left. repeat split.
Qed.

(** C5.  On every label state, once [setText(s)] has run, [getText()]
    returns [s] and changes nothing; no deploy is needed in between.
    [setText] itself returns normally whenever the label has its child
    element. *)
Theorem setText_then_getText (s : string) (l : UILabel) :
  let l' := state_of (setText (PStr s) l) in
  getText l' = Ok (PStr s) l' [] /\
  (_element l = None /\ setText (PStr s) l = Throw TypeError l' []
   \/ exists tr, setText (PStr s) l = Ok undefined l' tr /\
                 (setText (PStr s) ;; getText) l = Ok (PStr s) l' tr).
Proof.
  destruct l as [opts m sz ms tx [[c cl st es [ss cd ct] ls]|]]; cbn zeta.
  - split; [reflexivity|]. right. eexists. split; reflexivity.
  - split; [reflexivity|]. left. split; reflexivity.
Qed.

(** C6.  When the deploy callback runs on a label whose element is
    attached, it returns normally.  If the element's content differs from
    the stored text, the callback has called the element's [setContent]
    exactly once, with the stored text, and the element now holds it; if
    the two agree, it has not called [setContent] and the content is as it
    was. *)
Theorem deploy_reapplies_text (self : objref) (l : UILabel) (e : UIElement) (t : Target) :
  _element l = Some e ->
  _currentTarget (_surface e) = Some t ->
  exists l' tr e',
    deploy_callback self l = Ok tt l' tr /\
    _element l' = Some e' /\
    _text l' = _text l /\
    (element_content e <> _text l ->
       List.filter is_setContent tr = [Element_setContent (_text l)] /\
       element_content e' = _text l) /\
    (element_content e = _text l ->
       List.filter is_setContent tr = [] /\
       element_content e' = element_content e).
Proof.
  intros He Ht.
  rewrite (deploy_callback_attached self l e t He Ht). cbn zeta.
  unfold strict_neq. destruct (decide (element_content e = _text l)) as [Heq|Hne].
  - rewrite bool_decide_eq_true_2 by exact Heq. cbn.
    do 3 eexists. repeat (split; [first [reflexivity|exact He]|]).
    split; [intros Hne; contradiction|]. intros _. split; reflexivity.
  - rewrite bool_decide_eq_false_2 by exact Hne. cbn.
    do 3 eexists. repeat (split; [reflexivity|]).
    split; [|intros Heq; contradiction]. intros _. split; reflexivity.
Qed.

Lemma deploy_reapplies_text_witness :
  exists l' tr e',
    deploy_callback 1%positive diverged_label = Ok tt l' tr /\
    _element l' = Some e' /\
    List.filter is_setContent tr = [Element_setContent (PStr "Layouts")] /\
    element_content e' = PStr "Layouts".
Proof.
  destruct (deploy_reapplies_text 1%positive diverged_label stale_element node_120_40
              eq_refl eq_refl) as (l' & tr & e' & Hrun & He' & _ & Hdiff & _).
  exists l', tr, e'. split; [exact Hrun|]. split; [exact He'|].
  apply Hdiff. discriminate.
Defined.

(** C7.  Whatever the text, classes and style options are: constructing a
    label with an explicit size returns a label whose [_measuredSize] is
    false and whose child element holds that very size, the last size the
    constructor asked of it; constructing it without a size returns a
    label whose [_measuredSize] is true. *)
Theorem constructor_sizing_mode (text : prim) (classes style : jsval) :
  (forall pair : list prim,
      exists l tr e,
        new_UILabel {| opt_text := text; opt_classes := classes;
                       opt_style := style; opt_size := Some pair |} = Ok tt l tr /\
        _measuredSize l = false /\
        _element l = Some e /\
        element_size e = JArr pair /\
        last (List.filter is_element_setSize tr) = Some (Element_setSize (JArr pair))) /\
  (exists l tr,
      new_UILabel {| opt_text := text; opt_classes := classes;
                     opt_style := style; opt_size := None |} = Ok tt l tr /\
      _measuredSize l = true).
Proof.
  split.
  - intros pair. run. do 3 eexists. repeat split; reflexivity.
  - run. do 2 eexists. split; reflexivity.
Qed.


(** The label the constructor builds is the same whatever the members of
    the object it starts from held. *)
Lemma constructor_overwrites (opts : Options) (l0 l0' : UILabel) :
  state_of (constructor opts l0) = state_of (constructor opts l0').
Proof.
  destruct opts as [t c s [a|]];
    destruct l0 as [o m sz ms tx el]; destruct l0' as [o' m' sz' ms' tx' el'];
    destruct m, m'; reflexivity.
Qed.

(** C9.  Whatever the options, with or without an explicit size, and
    whatever the object the constructor starts from held in its members
    (its [_size] in particular), the constructor returns a label on which
    [getSize()] returns the empty array: the constructor itself empties
    the stored size, and nothing it does afterwards writes to it.  That
    label is the one [new UILabel(options)] gives. *)
Theorem getSize_after_construction (opts : Options) (l0 : UILabel) :
  exists l tr,
    constructor opts l0 = Ok tt l tr /\
    getSize l = Ok [] l [] /\
    length (_size l) = 0%nat /\
    state_of (new_UILabel opts) = l.
Proof.
  destruct opts as [t c s [a|]]; destruct l0 as [o m sz ms tx el]; destruct m;
    do 2 eexists; (split; [reflexivity|]); repeat split; reflexivity.
Qed.

(** X3.  The setters, in contrast with the getters, raise the stale
    flag. *)
Lemma setters_mark_stale (l : UILabel) (e : UIElement)
    (style classes : list jsval) (text : prim) :
  _element l = Some e ->
  (_contentDirty <$> surface_of (state_of (setStyle style l))) = Some true /\
  (_contentDirty <$> surface_of (state_of (setClasses classes l))) = Some true /\
  (_contentDirty <$> surface_of (state_of (setText text l))) = Some true.
Proof.
  intros He. destruct l as [opts m sz ms tx el]; cbn in He; subst el.
  destruct e as [c cl st es [ss cd ct] ls].
  repeat split; reflexivity.
Qed.

Lemma setters_mark_stale_witness :
  (_contentDirty <$> surface_of (state_of (setStyle [JObj {[ "color"%string := PStr "blue" ]}]
                                             (run_ops 1%positive [OClean] sample_label))))
    = Some true /\
  (_contentDirty <$> surface_of (state_of (setClasses [JArr [PStr "big"]]
                                             (run_ops 1%positive [OClean] sample_label))))
    = Some true /\
  (_contentDirty <$> surface_of (state_of (setText (PStr "A")
                                             (run_ops 1%positive [OClean] sample_label))))
    = Some true.
Proof.
  eapply (setters_mark_stale (run_ops 1%positive [OClean] sample_label)).
  reflexivity.
Defined.

(** C10.  On every label state [getText()] returns the stored text, makes
    no call and leaves the state as it found it.  [getStyle()] returns the
    child element's style (or throws when there is no child element) and
    leaves the state, child element and surface included, as it found it;
    it writes neither the surface's stale flag nor its size. *)
Theorem getters_change_nothing (l : UILabel) :
  getText l = Ok (_text l) l [] /\
  getStyle l = match _element l with
               | Some e => Ok (element_style e) l [Element_getStyle]
               | None => Throw TypeError l []
               end /\
  state_of (getText l) = l /\
  state_of (getStyle l) = l /\
  List.filter touches_surface (trace_of (getStyle l)) = [] /\
  surface_of (state_of (getStyle l)) = surface_of l.
Proof.
  destruct l as [opts m sz ms tx [e|]]; repeat split; reflexivity.
Qed.

(** ** Framing: which operation writes what *)

Lemma respects_bind {A B} (R : UILabel -> UILabel -> Prop) (m : M A) (k : A -> M B) :
  Transitive R ->
  respects R m -> (forall a, respects R (k a)) -> respects R (bind m k).
Proof.
  intros HR Hm Hk l. unfold bind.
  specialize (Hm l). destruct (m l) as [a l1 t1|err l1 t1]; cbn in Hm.
  - specialize (Hk a l1). destruct (k a l1) as [b l2 t2|err l2 t2]; cbn in Hk |- *;
      exact (HR _ _ _ Hm Hk).
  - exact Hm.
Qed.

Lemma respects_pure {A} (R : UILabel -> UILabel -> Prop) (m : M A) :
  Reflexive R -> (forall l, state_of (m l) = l) -> respects R m.
Proof. intros HR Hm l. rewrite Hm. apply HR. Qed.

Lemma respects_modify (R : UILabel -> UILabel -> Prop) (f : UILabel -> UILabel) :
  (forall l, R l (f l)) -> respects R (modify f).
Proof. intros Hf l. apply Hf. Qed.

Lemma respects_update_element (R : UILabel -> UILabel -> Prop) (f : UIElement -> UIElement) :
  Reflexive R ->
  (forall l e, _element l = Some e -> R l (set_element (Some (f e)) l)) ->
  respects R (update_element f).
Proof.
  intros HR Hf l. unfold update_element, this_element, get, modify, throw, bind, ret. cbn.
  destruct (_element l) as [e|] eqn:He; cbn.
  - apply Hf, He.
  - apply HR.
Qed.

Global Instance same_text_preorder : PreOrder same_text.
Proof.
  split; [intros l; reflexivity|].
  intros l1 l2 l3 H12 H23. unfold same_text in *. congruence.
Qed.

Global Instance same_mode_preorder : PreOrder same_mode.
Proof.
  split; [intros l; reflexivity|].
  intros l1 l2 l3 H12 H23. unfold same_mode in *. congruence.
Qed.

Global Instance stays_stale_preorder : PreOrder stays_stale.
Proof.
  split; [intros l H; exact H|].
  intros l1 l2 l3 H12 H23 H. apply H23, H12, H.
Qed.

(** Takes a computation apart down to its state updates. *)
Ltac frame :=
  repeat match goal with
    | |- respects _ (bind _ _) => apply respects_bind; [typeclasses eauto| |intros ?]
    | |- respects _ (match ?x with _ => _ end) => destruct x
    | |- respects _ (modify _) => apply respects_modify; intros ?
    | |- respects _ (update_element _) =>
        apply respects_update_element; [typeclasses eauto|intros ? ? ?]
    | |- respects _ _ => apply respects_pure; [typeclasses eauto|reflexivity]
    end.

Lemma deploy_callback_same_text (self : objref) : respects same_text (deploy_callback self).
Proof.
  unfold deploy_callback, _readSize, _sizeState_set, element_getContent,
    element_setContent, emit, surface_currentTarget, this_element.
  frame; reflexivity.
Qed.

Lemma deploy_callback_same_mode (self : objref) : respects same_mode (deploy_callback self).
Proof.
  unfold deploy_callback, _readSize, _sizeState_set, element_getContent,
    element_setContent, emit, surface_currentTarget, this_element.
  frame; reflexivity.
Qed.

Lemma deploy_callback_stays_stale (self : objref) : respects stays_stale (deploy_callback self).
Proof.
  unfold deploy_callback, _readSize, _sizeState_set, element_getContent,
    element_setContent, emit, surface_currentTarget, this_element.
  frame; unfold stays_stale, stale, surface_of; cbn;
    try (intros Hs; exact Hs).
  match goal with He : _element _ = Some _ |- _ => rewrite He end.
  intros Hs. exact Hs.
Qed.

Lemma run_listeners_respects (R : UILabel -> UILabel -> Prop) (self : objref) (evs : list string) :
  PreOrder R ->
  respects R (deploy_callback self) ->
  respects R (run_listeners self evs).
Proof.
  intros HR Hcb. induction evs as [|ev evs IH]; cbn.
  - apply respects_pure; [typeclasses eauto|reflexivity].
  - apply respects_bind; [typeclasses eauto| |intros _; exact IH].
    destruct (bool_decide (ev = "deploy"%string)); [exact Hcb|].
    apply respects_pure; [typeclasses eauto|reflexivity].
Qed.

Lemma platform_deploy_respects (R : UILabel -> UILabel -> Prop) (self : objref) :
  PreOrder R ->
  respects R (deploy_callback self) ->
  respects R (platform_deploy self).
Proof.
  intros HR Hcb. unfold platform_deploy, this_element.
  apply respects_bind; [typeclasses eauto| |intros e; apply run_listeners_respects; assumption].
  frame.
Qed.

Lemma run_op_deploy_respects (R : UILabel -> UILabel -> Prop) (this : objref) :
  PreOrder R ->
  respects R (deploy_callback this) ->
  respects R (run_op this ODeploy).
Proof.
  intros HR Hcb. cbn.
  apply respects_bind; [typeclasses eauto| |intros _].
  - apply platform_deploy_respects; assumption.
  - apply respects_pure; [typeclasses eauto|reflexivity].
Qed.

(** Splits a label into its members, with or without a child element. *)
Ltac split_label l :=
  destruct l as [?opts ?m ?sz ?ms ?tx [[?c ?cl ?st ?es [?ss ?cd ?ct] ?ls]|]].



(** X5.  On a label whose surface is attached to no node, or that has no
    child element at all, the deploy callback throws a [TypeError] before
    it has written anything: the state is as it was, and no call, hence no
    ['sizeChange'] notification, has been made. *)
Theorem deploy_unattached_throws (self : objref) (l : UILabel) :
  attached_node l = None ->
  deploy_callback self l = Throw TypeError l [].
Proof.
  intros Ht. split_label l; cbn in Ht; subst; reflexivity.
Qed.

Lemma deploy_unattached_throws_witness :
  deploy_callback 1%positive sample_label = Throw TypeError sample_label [].
Proof.
  apply (deploy_unattached_throws 1%positive sample_label). reflexivity.
Defined.

Lemma array_set_pair_again (w h : prim) (a : list prim) :
  array_set 1 h (array_set 0 w (array_set 1 h (array_set 0 w a))) =
  array_set 1 h (array_set 0 w a).
Proof.
  destruct a as [|x [|y a]]; reflexivity.
Qed.

(** X6.  On a label attached to a node, a second run of the deploy
    callback changes nothing more: it returns with the state the first
    run left, and it does not re-apply the text, the first run having
    made the element's content equal to the stored text. *)
Theorem deploy_twice_converges (self : objref) (l : UILabel) (t : Target) :
  attached_node l = Some t ->
  exists l1 tr1 tr2,
    deploy_callback self l = Ok tt l1 tr1 /\
    deploy_callback self l1 = Ok tt l1 tr2 /\
    List.filter is_setContent tr2 = [] /\
    (element_content <$> _element l1) = Some (_text l1).
Proof.
  intros Ht. unfold attached_node in Ht.
  destruct (_element l) as [e|] eqn:He; [|discriminate Ht].
  rewrite (deploy_callback_attached self l e t He Ht). cbn zeta.
  destruct (strict_neq (element_content e) (_text l)) eqn:Hneq.
  - do 3 eexists. split; [reflexivity|].
    erewrite deploy_callback_attached by (cbn; first [reflexivity|exact Ht]).
    cbn. unfold strict_neq. rewrite bool_decide_eq_true_2 by reflexivity. cbn.
    rewrite array_set_pair_again.
    split; [reflexivity|]. split; reflexivity.
  - do 3 eexists. split; [reflexivity|].
    erewrite deploy_callback_attached by (cbn; first [exact He|exact Ht]).
    cbn. rewrite Hneq. rewrite array_set_pair_again.
    split; [reflexivity|]. split; [reflexivity|].
    rewrite He. cbn. f_equal.
    unfold strict_neq in Hneq. apply negb_false_iff, bool_decide_eq_true_1 in Hneq.
    exact Hneq.
Qed.

Lemma deploy_twice_converges_witness :
  exists l1 tr1 tr2,
    deploy_callback 1%positive diverged_label = Ok tt l1 tr1 /\
    deploy_callback 1%positive l1 = Ok tt l1 tr2 /\
    List.filter is_setContent tr2 = [] /\
    (element_content <$> _element l1) = Some (_text l1).
Proof.
  apply (deploy_twice_converges 1%positive diverged_label node_120_40). reflexivity.
Defined.

(** X7.  Only a deploy event changes the stored size: after any method
    call, and after the platform attaches, detaches or cleans the surface,
    [getSize()] returns what it returned before, on every label state. *)
Theorem stored_size_changes_only_on_deploy (this : objref) (o : op) (l : UILabel) :
  o <> ODeploy ->
  _size (state_of (run_op this o l)) = _size l /\
  getSize (state_of (run_op this o l)) =
    Ok (_size l) (state_of (run_op this o l)) [].
Proof.
  intros Ho.
  destruct o; try congruence; split_label l; try destruct ms; split; reflexivity.
Qed.

Lemma stored_size_changes_only_on_deploy_witness :
  _size (state_of (run_op 1%positive (OSetSize (JArr [PNum 100; PNum 50])) attached_label))
    = _size attached_label /\
  getSize (state_of (run_op 1%positive (OSetSize (JArr [PNum 100; PNum 50])) attached_label)) =
    Ok (_size attached_label)
       (state_of (run_op 1%positive (OSetSize (JArr [PNum 100; PNum 50])) attached_label)) [].
Proof.
  apply (stored_size_changes_only_on_deploy 1%positive
           (OSetSize (JArr [PNum 100; PNum 50])) attached_label).
  discriminate.
Defined.

(** X8.  Only [setText] changes the stored text: on every label state,
    with any listeners bound, the text [getText()] returns after an
    operation is the argument of [setText] if the operation was one, and
    the text held before otherwise, deploy events included. *)
Theorem text_after_operation (this : objref) (o : op) (l : UILabel) :
  getText (state_of (run_op this o l)) =
    Ok (text_step (_text l) o) (state_of (run_op this o l)) [].
Proof.
  unfold getText, get, bind, ret. cbn. f_equal.
  destruct o; try (split_label l; try destruct ms; reflexivity).
  apply (run_op_deploy_respects same_text this); [typeclasses eauto|].
  apply deploy_callback_same_text.
Qed.

(** X9.  A deploy event, however many listeners are bound and whether or
    not the callback throws, leaves the sizing mode as it was. *)
Theorem deploy_keeps_mode (this : objref) (l : UILabel) :
  _measuredSize (state_of (platform_deploy this l)) = _measuredSize l.
Proof.
  apply (platform_deploy_respects same_mode this); [typeclasses eauto|].
  apply deploy_callback_same_mode.
Qed.

(** X10.  No method of the label and no deploy event ever lowers the
    surface's stale flag: if it is raised before an operation other than
    the platform's own cleaning, it is raised after it. *)
Theorem stale_flag_never_lowered (this : objref) (o : op) (l : UILabel) :
  o <> OClean ->
  stale l = Some true ->
  stale (state_of (run_op this o l)) = Some true.
Proof.
  intros Ho Hs.
  destruct o; try congruence;
    try (split_label l; cbn in Hs; try discriminate Hs; try destruct ms;
         first [exact Hs|reflexivity]).
  revert Hs. apply (run_op_deploy_respects stays_stale this); [typeclasses eauto|].
  apply deploy_callback_stays_stale.
Qed.

Lemma stale_flag_never_lowered_witness :
  stale (state_of (run_op 1%positive ODeploy attached_label)) = Some true.
Proof.
  apply (stale_flag_never_lowered 1%positive ODeploy attached_label).
  - discriminate.
  - reflexivity.
Defined.

(** X11.  On a constructed label no public method throws: every call
    other than a deploy event returns normally. *)
Theorem constructed_label_never_throws (this : objref) (o : op) (l : UILabel) :
  reachable this l ->
  o <> ODeploy ->
  exists v l' tr, run_op this o l = Ok v l' tr.
Proof.
  intros Hr Ho.
  destruct (reachable_well_formed this l Hr) as [(e & He & _) _].
  destruct l as [opts m sz ms tx el]; cbn in He; subst el.
  destruct e as [c cl st es [ss cd ct] ls].
  destruct o; try congruence; try destruct ms; do 3 eexists; reflexivity.
Qed.

Lemma constructed_label_never_throws_witness :
  exists v l' tr, run_op 1%positive (OSetStyle [JObj {[ "color"%string := PStr "blue" ]}])
                    sized_label = Ok v l' tr.
Proof.
  apply (constructed_label_never_throws 1%positive
           (OSetStyle [JObj {[ "color"%string := PStr "blue" ]}]) sized_label).
  - apply reachable_new.
  - discriminate.
Defined.

(** X12.  On an object that has no child element, only [setSize] is
    guarded.  [setClasses], [setStyle] and [getStyle] throw a [TypeError]
    and leave the state as it was; [setAutoSize] does the same unless the
    object is already auto-sized, in which case it returns; [setText]
    throws too, but only after it has stored the new text. *)
Theorem unguarded_methods_throw (l : UILabel) (args : list jsval) (text : prim) :
  _element l = None ->
  setClasses args l = Throw TypeError l [] /\
  setStyle args l = Throw TypeError l [] /\
  getStyle l = Throw TypeError l [] /\
  setAutoSize l = (if _measuredSize l then Ok undefined l [] else Throw TypeError l []) /\
  setText text l = Throw TypeError (set_text text l) [].
Proof.
  intros He. destruct l as [opts m sz ms tx el]; cbn in He; subst el.
  destruct ms; repeat split; reflexivity.
Qed.

Lemma unguarded_methods_throw_witness :
  setClasses [JArr [PStr "big"]] fresh_object = Throw TypeError fresh_object [] /\
  setStyle [JArr [PStr "big"]] fresh_object = Throw TypeError fresh_object [] /\
  getStyle fresh_object = Throw TypeError fresh_object [] /\
  setAutoSize fresh_object = Throw TypeError fresh_object [] /\
  setText (PStr "A") fresh_object = Throw TypeError (set_text (PStr "A") fresh_object) [].
Proof.
  apply (unguarded_methods_throw fresh_object [JArr [PStr "big"]] (PStr "A")).
  reflexivity.
Defined.

(** X13.  [setSize] overrides what came before it: on every label state,
    the state after [setSize(s')] is the same whether or not a
    [setSize(s)] or a [setAutoSize()] was called just before.  Likewise
    the state after [setText(t')] does not depend on a [setText(t)] just
    before. *)
Theorem last_setter_wins (this : objref) (s s' : jsval) (t t' : prim) (l : UILabel) :
  state_of (setSize this s' (state_of (setSize this s l))) = state_of (setSize this s' l) /\
  state_of (setSize this s' (state_of (setAutoSize l))) = state_of (setSize this s' l) /\
  state_of (setText t' (state_of (setText t l))) = state_of (setText t' l).
Proof.
  split_label l; try destruct ms; repeat split; reflexivity.
Qed.

(** X14.  [setAutoSize] after [setSize(s)] makes the label auto-sized
    again by writing the surface only: the surface is asked for
    [[true, true]], while the child element is never called and still
    holds the explicit size [s]. *)
Theorem setAutoSize_keeps_requested_size (this : objref) (s : jsval) (l : UILabel) (e : UIElement) :
  _element l = Some e ->
  exists l' tr e',
    (setSize this s ;; setAutoSize) l = Ok undefined l' tr /\
    _measuredSize l' = true /\
    _element l' = Some e' /\
    surface_size (_surface e') = JArr [PBool true; PBool true] /\
    element_size e' = s /\
    List.filter is_element_setSize tr = [Element_setSize s].
Proof.
  intros He. destruct l as [opts m sz ms tx el]; cbn in He; subst el.
  destruct e as [c cl st es [ss cd ct] ls].
  do 3 eexists. repeat split; reflexivity.
Qed.

Lemma setAutoSize_keeps_requested_size_witness :
  exists l' tr e',
    (setSize 1%positive (JArr [PNum 100; PNum 50]) ;; setAutoSize) sample_label
      = Ok undefined l' tr /\
    _measuredSize l' = true /\
    _element l' = Some e' /\
    surface_size (_surface e') = JArr [PBool true; PBool true] /\
    element_size e' = JArr [PNum 100; PNum 50] /\
    List.filter is_element_setSize tr = [Element_setSize (JArr [PNum 100; PNum 50])].
Proof.
  eapply (setAutoSize_keeps_requested_size 1%positive (JArr [PNum 100; PNum 50]) sample_label).
  reflexivity.
Defined.

(** X15.  The constructor never throws.  The label it returns holds the
    options' text, which [getText()] returns; its child element was
    created from that text and the options' classes and style; exactly one
    listener was bound, to ['deploy'], and the master modifier was added
    once; the surface is not attached yet, so a deploy callback run at
    this point would throw. *)
Theorem construction_outcome (opts : Options) :
  exists l tr,
    new_UILabel opts = Ok tt l tr /\
    options l = opts /\
    getText l = Ok (opt_text opts) l [] /\
    In (Element_new (opt_text opts) (opt_classes opts) (opt_style opts)) tr /\
    List.filter is_on tr = [Element_on "deploy"] /\
    List.filter (fun c => bool_decide (c = Component_addMasterModifier)) tr
      = [Component_addMasterModifier] /\
    attached_node l = None.
Proof.
  destruct opts as [t c s [a|]]; do 2 eexists;
    (split; [reflexivity|]); (split; [reflexivity|]); (split; [reflexivity|]);
    (split; [cbn; tauto|]); repeat split; reflexivity.
Qed.

Lemma state_of_deploy_op (this : objref) (l : UILabel) :
  state_of (run_op this ODeploy l) = state_of (platform_deploy this l).
Proof.
  cbn. unfold bind, ret. destruct (platform_deploy this l) as [[] l' tr|err l' tr]; reflexivity.
Qed.

Lemma inherited_members_step (this : objref) (o : op) (l : UILabel) :
  well_formed l ->
  options (state_of (run_op this o l)) = options l /\
  _masterModifier (state_of (run_op this o l)) = _masterModifier l.
Proof.
  intros Hwf.
  destruct o; try (
    destruct Hwf as [(e & He & Hl) Hsz];
    destruct l as [opts m sz ms tx el]; cbn in He, Hsz; subst el;
    destruct e as [c cl st es [ss cd ct] ls]; cbn in Hl; subst ls;
    try destruct ms; split; reflexivity).
  rewrite state_of_deploy_op, platform_deploy_once by exact Hwf.
  destruct Hwf as [(e & He & Hl) Hsz].
  destruct (_currentTarget (_surface e)) as [t|] eqn:Ht.
  - rewrite (deploy_callback_attached this l e t He Ht). cbn zeta.
    destruct (strict_neq (element_content e) (_text l)); split; reflexivity.
  - rewrite (deploy_callback_detached this l e He Ht). split; reflexivity.
Qed.

(** X16.  Through its whole life a constructed label keeps the options it
    was constructed with, its master modifier, and exactly one listener on
    its child element, the deploy callback: no method binds another, so a
    deploy event is one run of the callback. *)
Theorem one_deploy_listener (this : objref) (opts : Options) (os : list op) :
  options (run_ops this os (state_of (new_UILabel opts))) = opts /\
  _masterModifier (run_ops this os (state_of (new_UILabel opts))) = true /\
  (element_listeners <$> _element (run_ops this os (state_of (new_UILabel opts))))
    = Some ["deploy"%string] /\
  platform_deploy this (run_ops this os (state_of (new_UILabel opts))) =
    deploy_callback this (run_ops this os (state_of (new_UILabel opts))).
Proof.
  assert (Hinh : forall l, well_formed l ->
            options (run_ops this os l) = options l /\
            _masterModifier (run_ops this os l) = _masterModifier l).
  { induction os as [|o os IH]; intros l Hwf; cbn; [split; reflexivity|].
    destruct (inherited_members_step this o l Hwf) as [Ho Hm].
    destruct (IH _ (well_formed_step this o l Hwf)) as [Ho' Hm'].
    unfold run_ops in Ho', Hm'. rewrite Ho', Hm'. split; assumption. }
  pose proof (well_formed_new opts) as Hnew.
  destruct (Hinh _ Hnew) as [Ho Hm]. rewrite Ho, Hm.
  pose proof (well_formed_run this os _ Hnew) as Hwf.
  destruct (new_UILabel_shape opts) as (e0 & tr & Heq & _).
  repeat split.
  - rewrite Heq. reflexivity.
  - rewrite Heq. reflexivity.
  - destruct Hwf as [(e & He & Hl) _]. rewrite He. cbn. rewrite Hl. reflexivity.
  - apply platform_deploy_once, Hwf.
Qed.



